(** * A shallow embedding of go-ldap-client (src/ldap-client.go)

    The client is a record of configuration plus the optional session
    handle [Conn].  The directory-protocol collaborator (gopkg.in/ldap.v2)
    is a scripted world: each call to Dial, DialTLS, StartTLS, Bind or
    Search consumes the next response of its script, and every call, log
    line and sleep is appended to a trace, so that the number of dials,
    the retried requests and the backoff delays can be read off. *)

From stdpp Require Import base gmap strings list.
From Stdlib Require Import ZArith String Ascii.
Open Scope string_scope.

(** ** Data of the ldap.v2 library *)

(** Errors: [errors.New msg] from this package, or an error returned by
    the ldap library (result code and message). *)
Inductive error :=
| ErrNew (msg : string)
| ErrLDAP (code : Z) (msg : string).

Record EntryAttribute := { Name : string; Values : list string }.

Record Entry := { DN : string; EAttributes : list EntryAttribute }.

Record SearchResult := { Entries : list Entry }.

(** [Entry.GetAttributeValues] of ldap.v2: the values of the first
    attribute whose name equals the argument, or the empty list. *)
Fixpoint GetAttributeValues_aux (attrs : list EntryAttribute) (attribute : string)
  : list string :=
  match attrs with
  | [] => []
  | a :: rest =>
      if String.eqb (Name a) attribute then Values a
      else GetAttributeValues_aux rest attribute
  end.

Definition GetAttributeValues (e : Entry) (attribute : string) : list string :=
  GetAttributeValues_aux (EAttributes e) attribute.

(** [Entry.GetAttributeValue]: the first value, or "" when there is none. *)
Definition GetAttributeValue (e : Entry) (attribute : string) : string :=
  match GetAttributeValues e attribute with
  | [] => ""
  | v :: _ => v
  end.

Inductive Scope := ScopeBaseObject | ScopeSingleLevel | ScopeWholeSubtree.
Inductive Deref := NeverDerefAliases | DerefInSearching | DerefFindingBaseObj | DerefAlways.

Record SearchRequest := {
  BaseDN : string;
  ReqScope : Scope;
  DerefAliases : Deref;
  SizeLimit : Z;
  TimeLimit : Z;
  TypesOnly : bool;
  Filter : string;
  ReqAttributes : list string
}.

(** [ldap.NewSearchRequest] (the trailing controls argument is always nil
    in this package and is dropped). *)
Definition NewSearchRequest (base : string) (scope : Scope) (deref : Deref)
  (sizeLimit timeLimit : Z) (typesOnly : bool) (filter : string)
  (attributes : list string) : SearchRequest :=
  {| BaseDN := base; ReqScope := scope; DerefAliases := deref;
     SizeLimit := sizeLimit; TimeLimit := timeLimit; TypesOnly := typesOnly;
     Filter := filter; ReqAttributes := attributes |}.

(** [fmt.Sprintf(format, arg)] with one string argument: the first [%s]
    takes the argument, later ones print [%!s(MISSING)], [%%] prints [%];
    every other character is copied. *)
Fixpoint sprintf_aux (format : list Ascii.ascii) (arg : string) (used : bool)
  : string :=
  match format with
  | [] => ""
  | "%"%char :: "%"%char :: rest => String "%" (sprintf_aux rest arg used)
  | "%"%char :: "s"%char :: rest =>
      if used then "%!s(MISSING)" ++ sprintf_aux rest arg used
      else arg ++ sprintf_aux rest arg true
  | c :: rest => String c (sprintf_aux rest arg used)
  end.

Definition Sprintf (format arg : string) : string :=
  sprintf_aux (list_ascii_of_string format) arg false.

(** ** The client *)

(** A connection handle [*ldap.Conn] is a number naming the connection. *)
Definition conn := nat.

Record LDAPClient := {
  Conn : option conn;
  Host : string;
  Port : Z;
  UseSSL : bool;
  BindDN : string;
  BindPassword : string;
  GroupFilter : string;
  UserFilter : string;
  Base : string;
  Attributes : list string;
  ServerName : string
}.

Definition set_Conn (lc : LDAPClient) (c : option conn) : LDAPClient :=
  {| Conn := c; Host := Host lc; Port := Port lc; UseSSL := UseSSL lc;
     BindDN := BindDN lc; BindPassword := BindPassword lc;
     GroupFilter := GroupFilter lc; UserFilter := UserFilter lc;
     Base := Base lc; Attributes := Attributes lc;
     ServerName := ServerName lc |}.

(** ** The world: scripted collaborator and trace *)

Inductive event :=
| EvDial (host : string) (port : Z)
| EvDialTLS (host : string) (port : Z) (insecureSkipVerify : bool) (serverName : string)
| EvStartTLS (c : conn) (insecureSkipVerify : bool)
| EvBind (c : conn) (dn password : string)
| EvSearch (c : conn) (req : SearchRequest)
| EvLog (req : SearchRequest) (retry : Z)
| EvSleep (seconds : Z)
| EvClose (c : conn).

Record World := {
  dial_rsp : list (option error);
  tls_rsp : list (option error);
  bind_rsp : list (option error);
  search_rsp : list (SearchResult + error);
  trace : list event;
  next_conn : conn
}.

(** Past the end of its script the collaborator answers with a network
    error (ldap.v2's ErrorNetwork, code 200). *)
Definition no_response : error := ErrLDAP 200 "no response".

Record St := { client : LDAPClient; world : World }.

Definition M (A : Type) : Type := St -> A * St.

#[global] Instance M_ret : MRet M := fun A x s => (x, s).
#[global] Instance M_bind : MBind M :=
  fun A B f m s => let '(a, s') := m s in f a s'.

Definition get_client : M LDAPClient := fun s => (client s, s).
Definition put_client (lc : LDAPClient) : M unit :=
  fun s => (tt, {| client := lc; world := world s |}).

Definition with_world (f : World -> World) (s : St) : St :=
  {| client := client s; world := f (world s) |}.

Definition emit (ev : event) (w : World) : World :=
  {| dial_rsp := dial_rsp w; tls_rsp := tls_rsp w; bind_rsp := bind_rsp w;
     search_rsp := search_rsp w; trace := trace w ++ [ev];
     next_conn := next_conn w |}.

Definition log_event (ev : event) : M unit := fun s => (tt, with_world (emit ev) s).

Definition pop_dial (w : World) : option error * World :=
  let '(r, rest) := match dial_rsp w with [] => (Some no_response, []) | r :: rest => (r, rest) end in
  (r, {| dial_rsp := rest; tls_rsp := tls_rsp w; bind_rsp := bind_rsp w;
         search_rsp := search_rsp w; trace := trace w; next_conn := next_conn w |}).

Definition pop_tls (w : World) : option error * World :=
  let '(r, rest) := match tls_rsp w with [] => (Some no_response, []) | r :: rest => (r, rest) end in
  (r, {| dial_rsp := dial_rsp w; tls_rsp := rest; bind_rsp := bind_rsp w;
         search_rsp := search_rsp w; trace := trace w; next_conn := next_conn w |}).

Definition pop_bind (w : World) : option error * World :=
  let '(r, rest) := match bind_rsp w with [] => (Some no_response, []) | r :: rest => (r, rest) end in
  (r, {| dial_rsp := dial_rsp w; tls_rsp := tls_rsp w; bind_rsp := rest;
         search_rsp := search_rsp w; trace := trace w; next_conn := next_conn w |}).

Definition pop_search (w : World) : (SearchResult + error) * World :=
  let '(r, rest) := match search_rsp w with [] => (inr no_response, []) | r :: rest => (r, rest) end in
  (r, {| dial_rsp := dial_rsp w; tls_rsp := tls_rsp w; bind_rsp := bind_rsp w;
         search_rsp := rest; trace := trace w; next_conn := next_conn w |}).

Definition fresh_conn (w : World) : conn * World :=
  (next_conn w, {| dial_rsp := dial_rsp w; tls_rsp := tls_rsp w; bind_rsp := bind_rsp w;
                   search_rsp := search_rsp w; trace := trace w; next_conn := S (next_conn w) |}).

(** ** The collaborator's primitives *)

(** One call of the collaborator: record the event, take the next answer. *)
Definition call {A} (ev : event) (pop : World -> A * World) : M A :=
  fun s => let '(r, w') := pop (emit ev (world s)) in
           (r, {| client := client s; world := w' |}).

Definition new_conn : M conn :=
  fun s => let '(c, w') := fresh_conn (world s) in
           (c, {| client := client s; world := w' |}).

(** [ldap.Dial("tcp", address)]: a new connection, or the dial error. *)
Definition ldap_Dial (host : string) (port : Z) : M (option conn * option error) :=
  r ← call (EvDial host port) pop_dial;
  match r with
  | Some e => mret (None, Some e)
  | None => c ← new_conn; mret (Some c, None)
  end.

(** [ldap.DialTLS("tcp", address, &tls.Config{...})]. *)
Definition ldap_DialTLS (host : string) (port : Z) (insecureSkipVerify : bool)
  (serverName : string) : M (option conn * option error) :=
  r ← call (EvDialTLS host port insecureSkipVerify serverName) pop_dial;
  match r with
  | Some e => mret (None, Some e)
  | None => c ← new_conn; mret (Some c, None)
  end.

Definition StartTLS (l : conn) (insecureSkipVerify : bool) : M (option error) :=
  call (EvStartTLS l insecureSkipVerify) pop_tls.

Definition Bind (l : conn) (dn password : string) : M (option error) :=
  call (EvBind l dn password) pop_bind.

Definition Search (l : conn) (req : SearchRequest) : M (SearchResult + error) :=
  call (EvSearch l req) pop_search.

Definition ConnClose (l : conn) : M unit := log_event (EvClose l).

(** [time.Sleep(time.Second * time.Duration(n))] and [log.Printf]. *)
Definition Sleep (seconds : Z) : M unit := log_event (EvSleep seconds).
Definition LogRetry (req : SearchRequest) (retry : Z) : M unit := log_event (EvLog req retry).

(** Dereferencing a [*ldap.Conn]: every dereference in the source follows
    a nil error from Dial/DialTLS, or a successful [Connect], so the
    handle is non-nil there ([Connect_ok_conn] below). *)
Definition deref (l : option conn) : conn :=
  match l with Some c => c | None => 0%nat end.

(** ** The package's methods *)

(** [func (lc *LDAPClient) Connect() error] *)
Definition Connect : M (option error) :=
  lc ← get_client;
  match Conn lc with
  | Some _ => mret None
  | None =>
      if negb (UseSSL lc) then
        '(l, err) ← ldap_Dial (Host lc) (Port lc);
        match err with
        | Some e => mret (Some e)
        | None =>
            (* Reconnect with TLS *)
            err ← StartTLS (deref l) true;
            match err with
            | Some e => mret (Some e)
            | None => put_client (set_Conn lc l);; mret None
            end
        end
      else
        '(l, err) ← ldap_DialTLS (Host lc) (Port lc) false (ServerName lc);
        match err with
        | Some e => mret (Some e)
        | None => put_client (set_Conn lc l);; mret None
        end
  end.

(** [func (lc *LDAPClient) Close()]: closes the connection if there is
    one; the field [lc.Conn] is left as it is. *)
Definition Close : M unit :=
  lc ← get_client;
  match Conn lc with
  | Some l => ConnClose l
  | None => mret tt
  end.

(** The retry loop shared, verbatim, by SearchUser, GetGroupsOfUser and
    FindUsers:
<<
    sr, err := lc.Conn.Search(searchRequest)
    retry := 3
    for err != nil && retry <= 3 {
      sr, err = lc.Conn.Search(searchRequest)
      log.Printf("Retrying: [%s:%d] \n", searchRequest, retry)
      time.Sleep(time.Second * time.Duration(retry))
      retry++
    }
>>
    [retry_loop fuel] runs at most [fuel] iterations; the guard
    [retry <= 3] with [retry] counting up allows at most [4 - retry] of
    them, which is the fuel given ([retry_loop_fuel] below). *)
Definition is_err {A} (r : A + error) : bool :=
  match r with inl _ => false | inr _ => true end.

Fixpoint retry_loop (fuel : nat) (l : conn) (searchRequest : SearchRequest)
  (retry : Z) (r : SearchResult + error) : M (SearchResult + error) :=
  match fuel with
  | O => mret r
  | S fuel' =>
      if is_err r && (retry <=? 3)%Z then
        r ← Search l searchRequest;
        LogRetry searchRequest retry;;
        Sleep retry;;
        retry_loop fuel' l searchRequest (retry + 1)%Z r
      else mret r
  end.

Definition search_with_retry (l : conn) (searchRequest : SearchRequest)
  : M (SearchResult + error) :=
  r ← Search l searchRequest;
  let retry := 3%Z in
  retry_loop (Z.to_nat (4 - retry)) l searchRequest retry r.

(** [user := map[string]string{}; for _, attr := range attrs { user[attr] = e.GetAttributeValue(attr) }] *)
Definition user_of (attrs : list string) (e : Entry) : gmap string string :=
  foldl (fun user attr => <[attr := GetAttributeValue e attr]> user) ∅ attrs.

Definition errNotFound : error := ErrNew "User does not exist".
Definition errTooMany : error := ErrNew "Too many entries returned".

(** [func (lc *LDAPClient) SearchUser(username string) (map[string]string, error)];
    a nil map is [None]. *)
Definition SearchUser (username : string)
  : M (option (gmap string string) * option error) :=
  err ← Connect;
  match err with
  | Some e => mret (None, Some e)
  | None =>
      lc ← get_client;
      let searchRequest :=
        NewSearchRequest (Base lc) ScopeWholeSubtree NeverDerefAliases 0 0 false
          (Sprintf (UserFilter lc) username) (Attributes lc) in
      r ← search_with_retry (deref (Conn lc)) searchRequest;
      match r with
      | inr e => mret (None, Some e)
      | inl sr =>
          if (List.length (Entries sr) <? 1)%nat then mret (None, Some errNotFound)
          else if (1 <? List.length (Entries sr))%nat then mret (None, Some errTooMany)
          else match Entries sr with
               | e0 :: _ => mret (Some (user_of (Attributes lc) e0), None)
               | [] => mret (None, Some errNotFound) (* unreachable: length >= 1 *)
               end
      end
  end.

(** [if lc.BindDN != "" && lc.BindPassword != ""] *)
Definition has_bind_creds (lc : LDAPClient) : bool :=
  negb (String.eqb (BindDN lc) "") && negb (String.eqb (BindPassword lc) "").

(** [func (lc *LDAPClient) Authenticate(username, password string) (bool, map[string]string, error)] *)
Definition Authenticate (username password : string)
  : M (bool * option (gmap string string) * option error) :=
  err ← Connect;
  match err with
  | Some e => mret (false, None, Some e)
  | None =>
      lc ← get_client;
      (* First bind with a read only user *)
      err ← (if has_bind_creds lc then Bind (deref (Conn lc)) (BindDN lc) (BindPassword lc)
             else mret None);
      match err with
      | Some e => mret (false, None, Some e)
      | None =>
          let attributes := (Attributes lc ++ ["dn"])%list in
          (* Search for the given username *)
          let searchRequest :=
            NewSearchRequest (Base lc) ScopeWholeSubtree NeverDerefAliases 0 0 false
              (Sprintf (UserFilter lc) username) attributes in
          r ← Search (deref (Conn lc)) searchRequest;
          match r with
          | inr e => mret (false, None, Some e)
          | inl sr =>
              if (List.length (Entries sr) <? 1)%nat then mret (false, None, Some errNotFound)
              else if (1 <? List.length (Entries sr))%nat then mret (false, None, Some errTooMany)
              else match Entries sr with
                   | [] => mret (false, None, Some errNotFound) (* unreachable *)
                   | e0 :: _ =>
                       let userDN := DN e0 in
                       let user := user_of (Attributes lc) e0 in
                       (* Bind as the user to verify their password *)
                       err ← Bind (deref (Conn lc)) userDN password;
                       match err with
                       | Some e => mret (false, Some user, Some e)
                       | None =>
                           (* Rebind as the read only user for any further queries *)
                           err ← (if has_bind_creds lc
                                  then Bind (deref (Conn lc)) (BindDN lc) (BindPassword lc)
                                  else mret None);
                           match err with
                           | Some e => mret (true, Some user, Some e)
                           | None => mret (true, Some user, None)
                           end
                       end
                   end
          end
      end
  end.

(** [func (lc *LDAPClient) GetGroupsOfUser(username string) ([]string, error)];
    a nil slice is [None]. *)
Definition GetGroupsOfUser (username : string)
  : M (option (list string) * option error) :=
  err ← Connect;
  match err with
  | Some e => mret (None, Some e)
  | None =>
      lc ← get_client;
      let searchRequest :=
        NewSearchRequest (Base lc) ScopeWholeSubtree NeverDerefAliases 0 0 false
          (Sprintf (GroupFilter lc) username) ["cn"] in
      r ← search_with_retry (deref (Conn lc)) searchRequest;
      match r with
      | inr e => mret (None, Some e)
      | inl sr =>
          let groups := map (fun entry => GetAttributeValue entry "cn") (Entries sr) in
          mret (Some groups, None)
      end
  end.

(** [func (lc *LDAPClient) FindUsers(search string) ([]map[string]string, error)] *)
Definition FindUsers (search : string)
  : M (option (list (gmap string string)) * option error) :=
  err ← Connect;
  match err with
  | Some e => mret (None, Some e)
  | None =>
      lc ← get_client;
      let searchRequest :=
        NewSearchRequest (Base lc) ScopeWholeSubtree NeverDerefAliases 0 0 false
          (Sprintf (UserFilter lc) search) (Attributes lc) in
      r ← search_with_retry (deref (Conn lc)) searchRequest;
      match r with
      | inr e => mret (None, Some e)
      | inl sr =>
          if (List.length (Entries sr) <? 1)%nat then mret (None, Some errNotFound)
          else
            let users := map (fun ldap_user => user_of (Attributes lc) ldap_user) (Entries sr) in
            mret (Some users, None)
      end
  end.

(** ** Predicates used in the statements *)

(** The search collaborator, queried with this package's retry loop,
    answers [sr]: at once, or after one failure (the loop runs one
    retry, see [retry_loop_fuel]). *)
Definition search_answers (rsp : list (SearchResult + error)) (sr : SearchResult) : Prop :=
  (exists rest, rsp = inl sr :: rest) \/ (exists e rest, rsp = inr e :: inl sr :: rest).

(** Number of dials ([Dial] or [DialTLS]) in a trace. *)
Definition is_dial (ev : event) : bool :=
  match ev with EvDial _ _ | EvDialTLS _ _ _ _ => true | _ => false end.
Definition dials (t : list event) : nat := List.length (List.filter is_dial t).

(** Sleeps of a trace, in order. *)
Fixpoint sleeps (t : list event) : list Z :=
  match t with
  | [] => []
  | EvSleep n :: rest => n :: sleeps rest
  | _ :: rest => sleeps rest
  end.

(** Requests searched in a trace, in order. *)
Fixpoint searches (t : list event) : list SearchRequest :=
  match t with
  | [] => []
  | EvSearch _ r :: rest => r :: searches rest
  | _ :: rest => searches rest
  end.

(** Binds of a trace, as (dn, password). *)
Fixpoint binds (t : list event) : list (string * string) :=
  match t with
  | [] => []
  | EvBind _ dn pw :: rest => (dn, pw) :: binds rest
  | _ :: rest => binds rest
  end.

(** ** A concrete deployment, for the witnesses

    The spec's scenario: base "dc=example,dc=com", user filter
    "(uid=%s)", group filter "(memberUid=%s)", attributes cn and mail;
    the collaborator accepts one plaintext dial and its TLS upgrade. *)

Definition example_client (bindDN bindPassword : string) : LDAPClient :=
  {| Conn := None; Host := "ldap.example.com"; Port := 389; UseSSL := false;
     BindDN := bindDN; BindPassword := bindPassword;
     GroupFilter := "(memberUid=%s)"; UserFilter := "(uid=%s)";
     Base := "dc=example,dc=com"; Attributes := ["cn"; "mail"];
     ServerName := "ldap.example.com" |}.

Definition alice : Entry :=
  {| DN := "uid=alice,dc=example,dc=com";
     EAttributes := [{| Name := "cn"; Values := ["Alice A"] |};
                     {| Name := "mail"; Values := ["alice@example.com"] |}] |}.

(** A second entry with the same uid and no mail attribute. *)
Definition alice2 : Entry :=
  {| DN := "uid=alice,ou=people,dc=example,dc=com";
     EAttributes := [{| Name := "cn"; Values := ["Alice B"] |}] |}.

Definition group (cn : string) : Entry :=
  {| DN := "cn=" ++ cn ++ ",ou=groups,dc=example,dc=com";
     EAttributes := [{| Name := "cn"; Values := [cn] |}] |}.

Definition example_world (binds : list (option error)) (srch : list (SearchResult + error)) : World :=
  {| dial_rsp := [None]; tls_rsp := [None]; bind_rsp := binds; search_rsp := srch;
     trace := []; next_conn := 1%nat |}.

Definition example_state (bindDN bindPassword : string) (binds : list (option error))
  (srch : list (SearchResult + error)) : St :=
  {| client := example_client bindDN bindPassword; world := example_world binds srch |}.

Definition timeout_err : error := ErrLDAP 200 "timeout".
Definition invalid_credentials : error := ErrLDAP 49 "Invalid Credentials".

(** ** Effects a method may have on the state *)

(** [m] keeps the relation [R] between the state before and after. *)
Definition respects (R : St -> St -> Prop) {A} (m : M A) : Prop :=
  forall s, R s (snd (m s)).

(** The client is unchanged and the trace only grows by non-dial events. *)
Definition no_dial_step (s s' : St) : Prop :=
  client s' = client s /\
  exists t, trace (world s') = (trace (world s) ++ t)%list /\ dials t = 0%nat.

(** Only the handle [Conn] of the client may change, and only while it
    is nil. *)
Definition config_kept (s s' : St) : Prop :=
  exists c, client s' = set_Conn (client s) c /\
            (Conn (client s) <> None -> c = Conn (client s)).

(** ** General lemmas *)

Ltac unM := unfold mbind, mret, M_bind, M_ret in *.

Lemma set_Conn_same (lc : LDAPClient) : set_Conn lc (Conn lc) = lc.
Proof. destruct lc; reflexivity. Qed.

Lemma Connect_spec (s s1 : St) (r : option error) :
  Connect s = (r, s1) ->
  search_rsp (world s1) = search_rsp (world s) /\
  bind_rsp (world s1) = bind_rsp (world s) /\
  client s1 = set_Conn (client s) (Conn (client s1)) /\
  (r = None -> Conn (client s1) <> None).
Proof.
  destruct s as [lc w]. unfold Connect, get_client. unM. simpl.
  destruct (Conn lc) as [l|] eqn:Hc.
  - intros [= <- <-]. simpl. rewrite set_Conn_same.
    repeat split; congruence.
  - destruct (UseSSL lc); simpl.
    + unfold ldap_DialTLS, call, new_conn, pop_dial, fresh_conn; unM; simpl.
      destruct (dial_rsp w) as [|[e|] rest]; simpl;
        intros [= <- <-]; simpl; try (rewrite <- Hc, set_Conn_same); repeat split; try congruence.
    + unfold ldap_Dial, StartTLS, call, new_conn, pop_dial, pop_tls, fresh_conn; unM; simpl.
      destruct (dial_rsp w) as [|[e|] rest]; simpl;
        try (intros [= <- <-]; simpl; try (rewrite <- Hc, set_Conn_same); repeat split; congruence).
      destruct (tls_rsp w) as [|[e|] rest']; simpl;
        intros [= <- <-]; simpl; try (rewrite <- Hc, set_Conn_same); repeat split; congruence.
Qed.

Lemma retry_loop_fuel (n : nat) (l : conn) (req : SearchRequest) (retry : Z)
  (r : SearchResult + error) (s : St) :
  (Z.to_nat (4 - retry) <= n)%nat ->
  retry_loop n l req retry r s = retry_loop (Z.to_nat (4 - retry)) l req retry r s.
Proof.
  revert retry r s. induction n as [|n IH]; intros retry r s Hle.
  - replace (Z.to_nat (4 - retry)) with 0%nat by lia. reflexivity.
  - destruct (Z.to_nat (4 - retry)) as [|k] eqn:Hk.
    + simpl. replace (retry <=? 3)%Z with false by (symmetry; apply Z.leb_gt; lia).
      rewrite andb_false_r. reflexivity.
    + simpl. destruct (is_err r && (retry <=? 3)%Z); [|reflexivity].
      unM. destruct (Search l req s) as [r1 s1].
      replace k with (Z.to_nat (4 - (retry + 1))) by lia.
      apply IH. lia.
Qed.

Lemma retry_loop_client (n : nat) (l : conn) (req : SearchRequest) (retry : Z)
  (r : SearchResult + error) (s : St) :
  client (snd (retry_loop n l req retry r s)) = client s.
Proof.
  revert retry r s. induction n as [|n IH]; intros retry r s; simpl; [reflexivity|].
  destruct (is_err r && (retry <=? 3)%Z); [|reflexivity].
  unM. unfold Search, call, LogRetry, Sleep, log_event.
  destruct (pop_search (emit (EvSearch l req) (world s))) as [r1 w1]. simpl.
  rewrite IH. reflexivity.
Qed.

Lemma search_with_retry_answers (l : conn) (req : SearchRequest) (s : St) (sr : SearchResult) :
  search_answers (search_rsp (world s)) sr ->
  fst (search_with_retry l req s) = inl sr /\ client (snd (search_with_retry l req s)) = client s.
Proof.
  destruct s as [lc w]. unfold search_with_retry, search_answers. unM. simpl.
  intros [[rest Hs] | [e [rest Hs]]];
    unfold Search, call, pop_search, emit, LogRetry, Sleep, log_event, with_world;
    simpl; rewrite Hs; simpl; split; reflexivity.
Qed.

Lemma search_with_retry_fail_twice (l : conn) (req : SearchRequest) (s : St)
  (e1 e2 : error) (rest : list (SearchResult + error)) :
  search_rsp (world s) = inr e1 :: inr e2 :: rest ->
  fst (search_with_retry l req s) = inr e2 /\
  client (snd (search_with_retry l req s)) = client s /\
  search_rsp (world (snd (search_with_retry l req s))) = rest /\
  trace (world (snd (search_with_retry l req s))) =
    (trace (world s) ++ [EvSearch l req; EvSearch l req; EvLog req 3; EvSleep 3])%list.
Proof.
  destruct s as [lc w]. unfold search_with_retry. unM. simpl. intros Hs.
  unfold Search, call, pop_search, emit, LogRetry, Sleep, log_event, with_world;
    simpl; rewrite Hs; simpl. rewrite <- !app_assoc. repeat split; reflexivity.
Qed.

Lemma dials_app (t1 t2 : list event) : dials (t1 ++ t2) = (dials t1 + dials t2)%nat.
Proof. unfold dials. rewrite List.filter_app, List.length_app. reflexivity. Qed.

Lemma Connect_connected (s : St) : Conn (client s) <> None -> Connect s = (None, s).
Proof.
  unfold Connect, get_client. unM. destruct (Conn (client s)); [reflexivity | congruence].
Qed.

Lemma Connect_one_dial (s s1 : St) :
  Conn (client s) = None -> Connect s = (None, s1) ->
  dials (trace (world s1)) = S (dials (trace (world s))).
Proof.
  destruct s as [lc w]. unfold Connect, get_client. unM. simpl. intros Hc. rewrite Hc.
  destruct (UseSSL lc); simpl.
  - unfold ldap_DialTLS, call, new_conn, pop_dial, fresh_conn; unM; simpl.
    destruct (dial_rsp w) as [|[e|] rest]; simpl; intros [=]; subst; simpl.
    rewrite dials_app. unfold dials; simpl. lia.
  - unfold ldap_Dial, StartTLS, call, new_conn, pop_dial, pop_tls, fresh_conn; unM; simpl.
    destruct (dial_rsp w) as [|[e|] rest]; simpl; try (intros [=]; fail).
    destruct (tls_rsp w) as [|[e|] rest']; simpl; intros [=]; subst; simpl.
    rewrite !dials_app. unfold dials; simpl. lia.
Qed.

Lemma Close_unconnected (s : St) : Conn (client s) = None -> Close s = (tt, s).
Proof. unfold Close, get_client. unM. intros ->. reflexivity. Qed.

Lemma Close_connected (s : St) (l : conn) :
  Conn (client s) = Some l -> Close s = (tt, with_world (emit (EvClose l)) s).
Proof. unfold Close, get_client. unM. intros ->. reflexivity. Qed.

Lemma user_of_lookup_aux (attrs : list string) (e : Entry) (m : gmap string string) (a : string) :
  foldl (fun user attr => <[attr := GetAttributeValue e attr]> user) m attrs !! a =
  if decide (a ∈ attrs) then Some (GetAttributeValue e a) else m !! a.
Proof.
  revert m. induction attrs as [|x rest IH]; intros m; simpl.
  - destruct (decide (a ∈ [])) as [Hin|]; [apply elem_of_nil in Hin; contradiction | reflexivity].
  - rewrite IH. rewrite lookup_insert.
    destruct (decide (a ∈ rest)) as [Hr|Hr];
      destruct (decide (a ∈ x :: rest)) as [Hx|Hx]; try reflexivity.
    + exfalso. apply Hx. apply elem_of_cons. auto.
    + destruct (decide (x = a)) as [->|Hne]; [reflexivity|].
      exfalso. apply elem_of_cons in Hx as [Hx|Hx]; congruence.
    + destruct (decide (x = a)) as [->|Hne]; [|reflexivity].
      exfalso. apply Hx. apply elem_of_cons. auto.
Qed.

Lemma user_of_lookup_in (attrs : list string) (e : Entry) (a : string) :
  a ∈ attrs -> user_of attrs e !! a = Some (GetAttributeValue e a).
Proof.
  intros Ha. unfold user_of. rewrite user_of_lookup_aux.
  destruct (decide (a ∈ attrs)); [reflexivity | contradiction].
Qed.

Lemma user_of_lookup_notin (attrs : list string) (e : Entry) (a : string) :
  a ∉ attrs -> user_of attrs e !! a = None.
Proof.
  intros Ha. unfold user_of. rewrite user_of_lookup_aux.
  destruct (decide (a ∈ attrs)); [contradiction | apply lookup_empty].
Qed.

Lemma GetAttributeValue_missing (e : Entry) (a : string) :
  (forall x, x ∈ EAttributes e -> Name x <> a) -> GetAttributeValue e a = "".
Proof.
  unfold GetAttributeValue, GetAttributeValues. destruct e as [dn attrs]. simpl.
  induction attrs as [|x rest IH]; intros Hn; simpl; [reflexivity|].
  destruct (String.eqb (Name x) a) eqn:Hx.
  - apply String.eqb_eq in Hx. exfalso. apply (Hn x); [apply elem_of_cons; auto | exact Hx].
  - apply IH. intros y Hy. apply Hn. apply elem_of_cons. auto.
Qed.

Lemma has_bind_creds_set_Conn (lc : LDAPClient) (c : option conn) :
  has_bind_creds (set_Conn lc c) = has_bind_creds lc.
Proof. reflexivity. Qed.

Lemma has_bind_creds_spec (lc : LDAPClient) :
  has_bind_creds lc = true <-> BindDN lc <> "" /\ BindPassword lc <> "".
Proof.
  unfold has_bind_creds. rewrite andb_true_iff, !negb_true_iff, !String.eqb_neq. tauto.
Qed.

(** Unfold one of the methods up to its first search: after a successful
    [Connect] the method reads the client and runs its search. *)
Ltac after_connect HC :=
  unfold SearchUser, GetGroupsOfUser, FindUsers, Authenticate, get_client; unM;
  rewrite HC; cbv beta iota.

(** Run the retried search of a method, whose collaborator answers
    [sr] (hypothesis [Hs] on the state after Connect). *)
Ltac run_search Hs :=
  match goal with
  | |- context [search_with_retry ?l ?req ?s1] =>
      destruct (search_with_retry_answers l req s1 _ Hs) as [Hr _];
      destruct (search_with_retry l req s1) as [r s2]; simpl in Hr; subst r; cbn
  end.

(** Run Authenticate after a successful Connect into [s1 = {| client :=
    lc1; world := w1 |}], answering its binds and search from the
    scripts [Hb] and [Hs] of [w1]. *)
Ltac run_auth HC Hcl Hb Hs :=
  after_connect HC; cbn [client world]; rewrite Hcl, has_bind_creds_set_Conn;
  unfold Bind, Search, call, pop_bind, pop_search, emit;
  match goal with
  | |- context [has_bind_creds ?lc] => destruct (has_bind_creds lc); simpl in Hb
  end;
  cbn; rewrite ?Hb; cbn; rewrite ?Hs; cbn.

Lemma binds_app (t1 t2 : list event) : binds (t1 ++ t2) = (binds t1 ++ binds t2)%list.
Proof. induction t1 as [|[] t1 IH]; simpl; rewrite ?IH; reflexivity. Qed.

Lemma searches_app (t1 t2 : list event) : searches (t1 ++ t2) = (searches t1 ++ searches t2)%list.
Proof. induction t1 as [|[] t1 IH]; simpl; rewrite ?IH; reflexivity. Qed.

(** A successful Authenticate, event by event: the optional privileged
    bind, the search for attributes plus "dn", the bind as the found DN,
    the optional privileged rebind. *)
Lemma Authenticate_success_trace (s s1 : St) (username password : string) (e : Entry)
  (rest_b : list (option error)) (rest_s : list (SearchResult + error)) :
  Connect s = (None, s1) ->
  let lc := client s in
  let priv := if has_bind_creds lc then [None] else [] in
  bind_rsp (world s) = (priv ++ None :: priv ++ rest_b)%list ->
  search_rsp (world s) = inl {| Entries := [e] |} :: rest_s ->
  let l := deref (Conn (client s1)) in
  let req := NewSearchRequest (Base lc) ScopeWholeSubtree NeverDerefAliases 0 0 false
               (Sprintf (UserFilter lc) username) (Attributes lc ++ ["dn"])%list in
  let rebind := if has_bind_creds lc then [EvBind l (BindDN lc) (BindPassword lc)] else [] in
  fst (Authenticate username password s) = (true, Some (user_of (Attributes lc) e), None) /\
  trace (world (snd (Authenticate username password s))) =
    (trace (world s1) ++ rebind ++ [EvSearch l req; EvBind l (DN e) password] ++ rebind)%list.
Proof.
  intros HC lc priv Hb Hs l req rebind. subst lc priv l req rebind.
  destruct (Connect_spec _ _ _ HC) as (Hs1 & Hb1 & Hcl & _).
  rewrite <- Hb1 in Hb. rewrite <- Hs1 in Hs. destruct s1 as [lc1 w1]; simpl in *.
  run_auth HC Hcl Hb Hs; rewrite <- ?app_assoc; split; reflexivity.
Qed.

(** ** Claims *)

(** Claim C1 (as the code behaves).  With a search collaborator that
    fails twice and then succeeds, SearchUser, GetGroupsOfUser and
    FindUsers each surface the second failure: the loop guard
    [retry <= 3] starts from [retry := 3], so there is exactly one retry,
    re-issuing the identical request, followed by one sleep of 3 seconds
    and no third search. *)
Theorem retry_fails_after_one_retry (s s1 : St) (u : string) (e1 e2 : error)
  (sr : SearchResult) (rest : list (SearchResult + error)) :
  Connect s = (None, s1) ->
  search_rsp (world s) = inr e1 :: inr e2 :: inl sr :: rest ->
  let lc := client s1 in
  let l := deref (Conn lc) in
  let ureq := NewSearchRequest (Base lc) ScopeWholeSubtree NeverDerefAliases 0 0 false
                (Sprintf (UserFilter lc) u) (Attributes lc) in
  let greq := NewSearchRequest (Base lc) ScopeWholeSubtree NeverDerefAliases 0 0 false
                (Sprintf (GroupFilter lc) u) ["cn"] in
  (fst (SearchUser u s) = (None, Some e2) /\
   trace (world (snd (SearchUser u s))) =
     (trace (world s1) ++ [EvSearch l ureq; EvSearch l ureq; EvLog ureq 3; EvSleep 3])%list) /\
  (fst (GetGroupsOfUser u s) = (None, Some e2) /\
   trace (world (snd (GetGroupsOfUser u s))) =
     (trace (world s1) ++ [EvSearch l greq; EvSearch l greq; EvLog greq 3; EvSleep 3])%list) /\
  (fst (FindUsers u s) = (None, Some e2) /\
   trace (world (snd (FindUsers u s))) =
     (trace (world s1) ++ [EvSearch l ureq; EvSearch l ureq; EvLog ureq 3; EvSleep 3])%list).
Proof.
  intros HC Hs lc l ureq greq; subst lc l ureq greq.
  destruct (Connect_spec _ _ _ HC) as [Hs1 _]. rewrite <- Hs1 in Hs.
  split; [|split]; after_connect HC;
  match goal with
  | |- context [search_with_retry ?l ?req s1] =>
      destruct (search_with_retry_fail_twice l req s1 _ _ _ Hs) as (Hr & _ & _ & Ht);
      destruct (search_with_retry l req s1) as [r s2]; simpl in *; subst r;
      split; [reflexivity | exact Ht]
  end.
Qed.

(** Claim C1, at the spec's scenario: searches fail, fail, then find
    alice; SearchUser returns the second failure. *)
Lemma retry_fails_after_one_retry_witness :
  let s := example_state "" "" [] [inr timeout_err; inr timeout_err; inl {| Entries := [alice] |}] in
  Connect s = (None, snd (Connect s)) /\
  fst (SearchUser "alice" s) = (None, Some timeout_err) /\
  sleeps (trace (world (snd (SearchUser "alice" s)))) = [3%Z].
Proof.
  intros s.
  assert (HC : Connect s = (None, snd (Connect s))) by reflexivity.
  assert (Hs : search_rsp (world s) = [inr timeout_err; inr timeout_err; inl {| Entries := [alice] |}])
    by reflexivity.
  destruct (retry_fails_after_one_retry s (snd (Connect s)) "alice" _ _ _ [] HC Hs)
    as [[Hr Ht] _].
  split; [exact HC | split; [exact Hr |]].
  rewrite Ht. vm_compute. reflexivity.
Defined.

(** Claim C2 (counterexample).  After Connect then Close, the client
    still holds its (now closed) handle, and a second Connect dials no
    new session: one dial in all. *)
Lemma close_keeps_handle_counterexample :
  let s0 := example_state "" "" [] [] in
  let s1 := snd (Connect s0) in
  let s2 := snd (Close s1) in
  let s3 := snd (Connect s2) in
  Conn (client s2) <> None /\ dials (trace (world s3)) = 1%nat.
Proof. vm_compute. split; [discriminate | reflexivity]. Qed.

(** Claim C2, amended.  Close on a connected client closes the
    connection but leaves [Conn] set; a following Connect is then a
    no-op: it returns no error, changes nothing and dials nothing. *)
Theorem close_then_connect_noop (s : St) (l : conn) :
  Conn (client s) = Some l ->
  let s' := snd (Close s) in
  fst (Close s) = tt /\
  trace (world s') = (trace (world s) ++ [EvClose l])%list /\
  Conn (client s') = Some l /\
  Connect s' = (None, s').
Proof.
  intros Hc s'. subst s'. rewrite (Close_connected s l Hc). simpl.
  split; [reflexivity| split; [reflexivity | split; [exact Hc |]]].
  apply Connect_connected. simpl. congruence.
Qed.

Lemma close_then_connect_noop_witness :
  let s := snd (Connect (example_state "" "" [] [])) in
  Conn (client s) = Some 1%nat /\ Connect (snd (Close s)) = (None, snd (Close s)).
Proof.
  intros s. assert (Hc : Conn (client s) = Some 1%nat) by reflexivity.
  split; [exact Hc|]. apply (close_then_connect_noop s 1%nat Hc).
Defined.

(** Claim C9.  From an unconnected client, a successful Connect dials
    once; a second Connect returns no error and leaves the state
    unchanged, so two calls make exactly one dial.  Close on an
    unconnected client does nothing. *)
Theorem connect_idempotent_close_safe (s s1 : St) :
  Conn (client s) = None ->
  Connect s = (None, s1) ->
  Connect s1 = (None, s1) /\
  dials (trace (world s1)) = S (dials (trace (world s))) /\
  Close s = (tt, s).
Proof.
  intros Hc HC. split; [|split].
  - apply Connect_connected. destruct (Connect_spec _ _ _ HC) as (_ & _ & _ & H). auto.
  - exact (Connect_one_dial s s1 Hc HC).
  - exact (Close_unconnected s Hc).
Qed.

Lemma connect_idempotent_close_safe_witness :
  let s := example_state "" "" [] [] in
  Connect (snd (Connect s)) = (None, snd (Connect s)) /\
  dials (trace (world (snd (Connect s)))) = 1%nat.
Proof.
  intros s.
  destruct (connect_idempotent_close_safe s (snd (Connect s)) eq_refl eq_refl) as (H1 & H2 & _).
  split; [exact H1 | rewrite H2; reflexivity].
Defined.

(** Claim C3.  When Connect succeeds and the (retried) search finds
    exactly one entry [e], SearchUser returns no error and the map that
    sends each configured attribute to [e]'s single value of it (the
    empty string when [e] lacks the attribute) and has no other key. *)
Theorem SearchUser_one_match (s s1 : St) (username : string) (e : Entry) :
  Connect s = (None, s1) ->
  search_answers (search_rsp (world s)) {| Entries := [e] |} ->
  exists m, fst (SearchUser username s) = (Some m, None) /\
    (forall a, a ∈ Attributes (client s) -> m !! a = Some (GetAttributeValue e a)) /\
    (forall a, a ∈ Attributes (client s) -> (forall x, x ∈ EAttributes e -> Name x <> a) ->
       m !! a = Some "") /\
    (forall a, a ∉ Attributes (client s) -> m !! a = None).
Proof.
  intros HC Hs.
  destruct (Connect_spec _ _ _ HC) as (Hs1 & _ & Hcl & _). rewrite <- Hs1 in Hs.
  after_connect HC. run_search Hs.
  exists (user_of (Attributes (client s1)) e). split; [reflexivity|].
  rewrite Hcl. simpl. split; [|split].
  - intros a Ha. apply user_of_lookup_in. exact Ha.
  - intros a Ha Hn. rewrite user_of_lookup_in by exact Ha.
    rewrite GetAttributeValue_missing by exact Hn. reflexivity.
  - intros a Ha. apply user_of_lookup_notin. exact Ha.
Qed.

Lemma SearchUser_one_match_witness :
  let s := example_state "" "" [] [inl {| Entries := [alice] |}] in
  Connect s = (None, snd (Connect s)) /\
  exists m, fst (SearchUser "alice" s) = (Some m, None) /\
    m !! "cn" = Some "Alice A" /\ m !! "mail" = Some "alice@example.com".
Proof.
  intros s. assert (HC : Connect s = (None, snd (Connect s))) by reflexivity.
  split; [exact HC|].
  destruct (SearchUser_one_match s (snd (Connect s)) "alice" alice HC) as (m & Hm & Hin & _).
  - left. exists []. reflexivity.
  - exists m. split; [exact Hm|].
    split; rewrite Hin; try reflexivity; simpl; set_solver.
Defined.

(** Claim C4.  When Connect succeeds and the (retried) search finds no
    entry, SearchUser and FindUsers fail with "User does not exist",
    while GetGroupsOfUser returns an empty, non-nil list and no error. *)
Theorem zero_matches (s s1 : St) (username : string) :
  Connect s = (None, s1) ->
  search_answers (search_rsp (world s)) {| Entries := [] |} ->
  fst (SearchUser username s) = (None, Some errNotFound) /\
  fst (FindUsers username s) = (None, Some errNotFound) /\
  fst (GetGroupsOfUser username s) = (Some [], None).
Proof.
  intros HC Hs.
  destruct (Connect_spec _ _ _ HC) as (Hs1 & _ & _ & _). rewrite <- Hs1 in Hs.
  split; [|split]; after_connect HC; run_search Hs; reflexivity.
Qed.

Lemma zero_matches_witness :
  let s := example_state "" "" [] [inl {| Entries := [] |}] in
  Connect s = (None, snd (Connect s)) /\
  fst (SearchUser "carol" s) = (None, Some errNotFound) /\
  fst (GetGroupsOfUser "carol" s) = (Some [], None).
Proof.
  intros s. assert (HC : Connect s = (None, snd (Connect s))) by reflexivity.
  assert (Hs : search_answers (search_rsp (world s)) {| Entries := [] |})
    by (left; exists []; reflexivity).
  destruct (zero_matches s (snd (Connect s)) "carol" HC Hs) as (H1 & _ & H3).
  split; [exact HC | split; [exact H1 | exact H3]].
Defined.

(** Claim C5.  When Connect succeeds and the (retried) search finds two
    or more entries, SearchUser fails with "Too many entries returned",
    while FindUsers returns no error and one map per entry, in order,
    each built from that entry over the configured attributes. *)
Theorem several_matches (s s1 : St) (username : string) (e1 e2 : Entry) (es : list Entry) :
  Connect s = (None, s1) ->
  search_answers (search_rsp (world s)) {| Entries := e1 :: e2 :: es |} ->
  fst (SearchUser username s) = (None, Some errTooMany) /\
  fst (FindUsers username s) =
    (Some (map (user_of (Attributes (client s))) (e1 :: e2 :: es)), None).
Proof.
  intros HC Hs.
  destruct (Connect_spec _ _ _ HC) as (Hs1 & _ & Hcl & _). rewrite <- Hs1 in Hs.
  split; after_connect HC; run_search Hs; [reflexivity|].
  rewrite Hcl. reflexivity.
Qed.

Lemma several_matches_witness :
  let s := example_state "" "" [] [inl {| Entries := [alice; alice2] |}] in
  Connect s = (None, snd (Connect s)) /\
  fst (SearchUser "alice" s) = (None, Some errTooMany).
Proof.
  intros s. assert (HC : Connect s = (None, snd (Connect s))) by reflexivity.
  assert (Hs : search_answers (search_rsp (world s)) {| Entries := [alice; alice2] |})
    by (left; exists []; reflexivity).
  destruct (several_matches s (snd (Connect s)) "alice" alice alice2 [] HC Hs) as [H1 _].
  split; [exact HC | exact H1].
Defined.

(** Claim C6.  When Connect and the optional privileged bind succeed and
    the search finds exactly one entry [e], a failing bind as [e]'s DN
    with the given password makes Authenticate return false, the map of
    [e]'s attributes and the bind error; when the search finds no entry,
    it returns false, no map (nil) and "User does not exist". *)
Theorem Authenticate_wrong_password (s s1 : St) (username password : string)
  (e : Entry) (be : error) (rest_b : list (option error)) :
  Connect s = (None, s1) ->
  bind_rsp (world s) = ((if has_bind_creds (client s) then [None] else []) ++ Some be :: rest_b)%list ->
  (forall rest_s, search_rsp (world s) = inl {| Entries := [e] |} :: rest_s ->
     fst (Authenticate username password s) =
       (false, Some (user_of (Attributes (client s)) e), Some be)) /\
  (forall rest_s, search_rsp (world s) = inl {| Entries := [] |} :: rest_s ->
     fst (Authenticate username password s) = (false, None, Some errNotFound)).
Proof.
  intros HC Hb. destruct (Connect_spec _ _ _ HC) as (Hs1 & Hb1 & Hcl & _).
  rewrite <- Hb1 in Hb. destruct s1 as [lc1 w1]; simpl in *.
  split; intros rest_s Hs; rewrite <- Hs1 in Hs; run_auth HC Hcl Hb Hs; reflexivity.
Qed.

Lemma Authenticate_wrong_password_witness :
  let s := example_state "" "" [Some invalid_credentials] [inl {| Entries := [alice] |}] in
  Connect s = (None, snd (Connect s)) /\
  fst (Authenticate "alice" "wrong" s) =
    (false, Some (user_of ["cn"; "mail"] alice), Some invalid_credentials).
Proof.
  intros s. assert (HC : Connect s = (None, snd (Connect s))) by reflexivity.
  split; [exact HC|].
  destruct (Authenticate_wrong_password s (snd (Connect s)) "alice" "wrong" alice
              invalid_credentials [] HC eq_refl) as [H1 _].
  apply (H1 []). reflexivity.
Defined.

(** Claim C7.  When privileged credentials are configured, the first
    privileged bind and the bind as the user succeed, and the rebind as
    the privileged identity fails with [re], Authenticate returns true,
    the user's map and [re]. *)
Theorem Authenticate_rebind_fails (s s1 : St) (username password : string)
  (e : Entry) (re : error) (rest_b : list (option error)) (rest_s : list (SearchResult + error)) :
  Connect s = (None, s1) ->
  has_bind_creds (client s) = true ->
  bind_rsp (world s) = None :: None :: Some re :: rest_b ->
  search_rsp (world s) = inl {| Entries := [e] |} :: rest_s ->
  fst (Authenticate username password s) =
    (true, Some (user_of (Attributes (client s)) e), Some re).
Proof.
  intros HC Hhb Hb Hs. destruct (Connect_spec _ _ _ HC) as (Hs1 & Hb1 & Hcl & _).
  rewrite <- Hb1 in Hb. rewrite <- Hs1 in Hs. destruct s1 as [lc1 w1]; simpl in *.
  after_connect HC; cbn [client world]; rewrite Hcl, has_bind_creds_set_Conn, Hhb.
  unfold Bind, Search, call, pop_bind, pop_search, emit.
  cbn; rewrite ?Hb; cbn; rewrite ?Hs; cbn. reflexivity.
Qed.

Lemma Authenticate_rebind_fails_witness :
  let s := example_state "cn=reader,dc=example,dc=com" "secret"
             [None; None; Some invalid_credentials] [inl {| Entries := [alice] |}] in
  Connect s = (None, snd (Connect s)) /\
  fst (Authenticate "alice" "right" s) =
    (true, Some (user_of ["cn"; "mail"] alice), Some invalid_credentials).
Proof.
  intros s. assert (HC : Connect s = (None, snd (Connect s))) by reflexivity.
  split; [exact HC|].
  exact (Authenticate_rebind_fails s (snd (Connect s)) "alice" "right" alice
           invalid_credentials [] [] HC eq_refl eq_refl eq_refl).
Defined.

(** Claim C8 (counterexample).  A successful authentication of alice
    returns the map {cn, mail} only: no key or value of it is alice's
    DN. *)
Lemma Authenticate_record_without_dn_counterexample :
  let s := example_state "" "" [None] [inl {| Entries := [alice] |}] in
  exists m, fst (Authenticate "alice" "right" s) = (true, Some m, None) /\
    m !! "dn" = None /\ ~ (exists k, m !! k = Some (DN alice)).
Proof.
  exists (user_of ["cn"; "mail"] alice). split; [reflexivity|]. split; [reflexivity|].
  intros [k Hk]. destruct (decide (k ∈ ["cn"; "mail"])) as [Hin|Hin].
  - rewrite user_of_lookup_in in Hk by exact Hin.
    apply elem_of_cons in Hin as [->|Hin]; [discriminate|].
    apply elem_of_cons in Hin as [->|Hin]; [discriminate|].
    apply elem_of_nil in Hin. contradiction.
  - rewrite user_of_lookup_notin in Hk by exact Hin. discriminate.
Qed.

(** Claim C8, amended.  On successful authentication the returned record
    is the map of the configured attributes to their single values, as
    in SearchUser; the search asks for the configured attributes plus
    "dn", and the found entry's DN is used for the credential bind, but
    the DN is not added to the returned record. *)
Theorem Authenticate_success_record (s s1 : St) (username password : string) (e : Entry)
  (rest_b : list (option error)) (rest_s : list (SearchResult + error)) :
  Connect s = (None, s1) ->
  let lc := client s in
  let priv := if has_bind_creds lc then [None] else [] in
  bind_rsp (world s) = (priv ++ None :: priv ++ rest_b)%list ->
  search_rsp (world s) = inl {| Entries := [e] |} :: rest_s ->
  fst (Authenticate username password s) = (true, Some (user_of (Attributes lc) e), None) /\
  map ReqAttributes (searches (trace (world (snd (Authenticate username password s))))) =
    (map ReqAttributes (searches (trace (world s1))) ++ [Attributes lc ++ ["dn"]])%list /\
  binds (trace (world (snd (Authenticate username password s)))) =
    (binds (trace (world s1)) ++
     (if has_bind_creds lc then [(BindDN lc, BindPassword lc)] else []) ++
     [(DN e, password)] ++
     (if has_bind_creds lc then [(BindDN lc, BindPassword lc)] else []))%list.
Proof.
  intros HC lc priv Hb Hs.
  destruct (Authenticate_success_trace s s1 username password e rest_b rest_s HC Hb Hs)
    as [Hr Ht].
  split; [exact Hr|]. rewrite Ht, searches_app, binds_app, map_app.
  subst lc priv. destruct (has_bind_creds (client s)); split; reflexivity.
Qed.

Lemma Authenticate_success_record_witness :
  let s := example_state "" "" [None] [inl {| Entries := [alice] |}] in
  Connect s = (None, snd (Connect s)) /\
  fst (Authenticate "alice" "right" s) = (true, Some (user_of ["cn"; "mail"] alice), None).
Proof.
  intros s. assert (HC : Connect s = (None, snd (Connect s))) by reflexivity.
  split; [exact HC|].
  destruct (Authenticate_success_record s (snd (Connect s)) "alice" "right" alice [] []
              HC eq_refl eq_refl) as [H _].
  exact H.
Defined.

(** Claim C10.  With every bind accepted and one matching entry, the
    binds Authenticate performs are: the privileged bind, the user bind
    and the privileged rebind when both BindDN and BindPassword are
    non-empty; only the user bind when either of them is "". *)
Theorem Authenticate_privileged_binds (s s1 : St) (username password : string) (e : Entry)
  (rest_b : list (option error)) (rest_s : list (SearchResult + error)) :
  Connect s = (None, s1) ->
  bind_rsp (world s) = None :: None :: None :: rest_b ->
  search_rsp (world s) = inl {| Entries := [e] |} :: rest_s ->
  let lc := client s in
  fst (Authenticate username password s) = (true, Some (user_of (Attributes lc) e), None) /\
  binds (trace (world (snd (Authenticate username password s)))) =
    (binds (trace (world s1)) ++
     if decide (BindDN lc <> "" /\ BindPassword lc <> "")
     then [(BindDN lc, BindPassword lc); (DN e, password); (BindDN lc, BindPassword lc)]
     else [(DN e, password)])%list.
Proof.
  intros HC Hb Hs lc. subst lc.
  destruct (decide (BindDN (client s) <> "" /\ BindPassword (client s) <> "")) as [Hd|Hd].
  - assert (Hhb : has_bind_creds (client s) = true) by (apply has_bind_creds_spec; exact Hd).
    assert (Hb' : bind_rsp (world s) =
      ((if has_bind_creds (client s) then [None] else []) ++ None ::
       (if has_bind_creds (client s) then [None] else []) ++ rest_b)%list)
      by (rewrite Hhb; exact Hb).
    destruct (Authenticate_success_trace s s1 username password e rest_b rest_s HC Hb' Hs)
      as [Hr Ht].
    split; [exact Hr|]. rewrite Ht, binds_app, Hhb. reflexivity.
  - assert (Hhb : has_bind_creds (client s) = false).
    { destruct (has_bind_creds (client s)) eqn:E; [|reflexivity].
      exfalso. apply Hd, has_bind_creds_spec, E. }
    assert (Hb' : bind_rsp (world s) =
      ((if has_bind_creds (client s) then [None] else []) ++ None ::
       (if has_bind_creds (client s) then [None] else []) ++ None :: None :: rest_b)%list)
      by (rewrite Hhb; exact Hb).
    destruct (Authenticate_success_trace s s1 username password e _ rest_s HC Hb' Hs)
      as [Hr Ht].
    split; [exact Hr|]. rewrite Ht, binds_app, Hhb. reflexivity.
Qed.

Lemma Authenticate_privileged_binds_witness :
  let s := example_state "cn=reader,dc=example,dc=com" "" [None; None; None]
             [inl {| Entries := [alice] |}] in
  Connect s = (None, snd (Connect s)) /\
  binds (trace (world (snd (Authenticate "alice" "right" s)))) =
    [("uid=alice,dc=example,dc=com", "right")].
Proof.
  intros s. assert (HC : Connect s = (None, snd (Connect s))) by reflexivity.
  split; [exact HC|].
  destruct (Authenticate_privileged_binds s (snd (Connect s)) "alice" "right" alice [] []
              HC eq_refl eq_refl) as [_ H].
  rewrite H. reflexivity.
Defined.

(** ** Further properties of the methods *)

Section Respects.
Variable R : St -> St -> Prop.
Hypothesis R_refl : forall s, R s s.
Hypothesis R_trans : forall s1 s2 s3, R s1 s2 -> R s2 s3 -> R s1 s3.

Lemma respects_ret {A} (x : A) : respects R (mret x).
Proof. intros s. apply R_refl. Qed.

Lemma respects_bind {A B} (m : M A) (f : A -> M B) :
  respects R m -> (forall a, respects R (f a)) -> respects R (mbind f m).
Proof.
  intros Hm Hf s. unM. specialize (Hm s). destruct (m s) as [a s1] eqn:E.
  simpl in Hm. apply (R_trans _ s1); [exact Hm | apply (Hf a s1)].
Qed.
End Respects.

Lemma respects_weaken (R R' : St -> St -> Prop) {A} (m : M A) :
  (forall s s', R s s' -> R' s s') -> respects R m -> respects R' m.
Proof. intros HR Hm s. apply HR, Hm. Qed.

Lemma no_dial_step_refl (s : St) : no_dial_step s s.
Proof. split; [reflexivity | exists []; rewrite app_nil_r; split; reflexivity]. Qed.

Lemma no_dial_step_trans (s1 s2 s3 : St) :
  no_dial_step s1 s2 -> no_dial_step s2 s3 -> no_dial_step s1 s3.
Proof.
  intros [Hc1 [t1 [Ht1 Hd1]]] [Hc2 [t2 [Ht2 Hd2]]]. split; [congruence|].
  exists (t1 ++ t2)%list. rewrite Ht2, Ht1, app_assoc. split; [reflexivity|].
  rewrite dials_app. lia.
Qed.

Lemma config_kept_refl (s : St) : config_kept s s.
Proof. exists (Conn (client s)). rewrite set_Conn_same. split; auto. Qed.

Lemma config_kept_trans (s1 s2 s3 : St) :
  config_kept s1 s2 -> config_kept s2 s3 -> config_kept s1 s3.
Proof.
  intros [c1 [H1 K1]] [c2 [H2 K2]]. exists c2. rewrite H2, H1. split; [reflexivity|].
  intros Hn. specialize (K1 Hn).
  assert (E : Conn (client s2) = c1) by (rewrite H1; reflexivity).
  rewrite K2; congruence.
Qed.

Lemma no_dial_config_kept (s s' : St) : no_dial_step s s' -> config_kept s s'.
Proof.
  intros [Hc _]. exists (Conn (client s)). rewrite Hc, set_Conn_same. split; auto.
Qed.

Lemma call_no_dial {A} (ev : event) (pop : World -> A * World) :
  is_dial ev = false -> (forall w, trace (snd (pop w)) = trace w) ->
  respects no_dial_step (call ev pop).
Proof.
  intros Hd Hp s. unfold call. specialize (Hp (emit ev (world s))).
  destruct (pop (emit ev (world s))) as [r w'] eqn:E. simpl in *. split; [reflexivity|].
  exists [ev]. simpl. rewrite Hp. split; [reflexivity|]. unfold dials. simpl. rewrite Hd. reflexivity.
Qed.

Lemma log_event_no_dial (ev : event) : is_dial ev = false -> respects no_dial_step (log_event ev).
Proof.
  intros Hd s. split; [reflexivity|]. exists [ev]. split; [reflexivity|].
  unfold dials. simpl. rewrite Hd. reflexivity.
Qed.

Lemma Search_no_dial (l : conn) (req : SearchRequest) : respects no_dial_step (Search l req).
Proof. apply call_no_dial; [reflexivity | intros w; unfold pop_search; destruct (search_rsp w); reflexivity]. Qed.

Lemma Bind_no_dial (l : conn) (dn pw : string) : respects no_dial_step (Bind l dn pw).
Proof. apply call_no_dial; [reflexivity | intros w; unfold pop_bind; destruct (bind_rsp w); reflexivity]. Qed.

Lemma LogRetry_no_dial (req : SearchRequest) (r : Z) : respects no_dial_step (LogRetry req r).
Proof. apply log_event_no_dial. reflexivity. Qed.

Lemma Sleep_no_dial (n : Z) : respects no_dial_step (Sleep n).
Proof. apply log_event_no_dial. reflexivity. Qed.

Lemma ConnClose_no_dial (l : conn) : respects no_dial_step (ConnClose l).
Proof. apply log_event_no_dial. reflexivity. Qed.

Lemma get_client_no_dial : respects no_dial_step get_client.
Proof. intros s. apply no_dial_step_refl. Qed.

Create HintDb nodial.
#[local] Hint Resolve no_dial_step_refl no_dial_step_trans Search_no_dial Bind_no_dial
  LogRetry_no_dial Sleep_no_dial ConnClose_no_dial get_client_no_dial : nodial.

(** Decompose a monadic program into its steps, closing each leaf with
    [leaf]. *)
Ltac resp leaf :=
  repeat first
    [ solve [leaf]
    | progress cbv zeta
    | match goal with
      | |- forall _, _ => intros
      | |- respects _ (mbind _ _) => apply respects_bind
      | |- respects _ (mret _) => apply respects_ret
      | |- respects _ (match ?x with _ => _ end) => destruct x
      end ].

Lemma retry_loop_no_dial (n : nat) (l : conn) (req : SearchRequest) (retry : Z)
  (r : SearchResult + error) : respects no_dial_step (retry_loop n l req retry r).
Proof.
  revert retry r. induction n as [|n IH]; intros retry r; simpl;
    resp ltac:(eauto with nodial).
Qed.

Lemma search_with_retry_no_dial (l : conn) (req : SearchRequest) :
  respects no_dial_step (search_with_retry l req).
Proof. unfold search_with_retry. resp ltac:(eauto using retry_loop_no_dial with nodial). Qed.
#[local] Hint Resolve retry_loop_no_dial search_with_retry_no_dial : nodial.

Lemma Close_no_dial : respects no_dial_step Close.
Proof. unfold Close. resp ltac:(eauto with nodial). Qed.

Lemma after_Connect_connected {A} (f : option error -> M A) (s : St) :
  Conn (client s) <> None -> (forall a, respects no_dial_step (f a)) ->
  no_dial_step s (snd (mbind f Connect s)).
Proof. intros Hc Hf. unM. rewrite (Connect_connected s Hc). apply Hf. Qed.

(** Once the client holds a connection, every method reuses it: the client
    record (handle and configuration) is left unchanged and no Dial or
    DialTLS is issued. *)
Theorem connected_methods_no_dial (s : St) (username password : string) :
  Conn (client s) <> None ->
  no_dial_step s (snd (Connect s)) /\
  no_dial_step s (snd (SearchUser username s)) /\
  no_dial_step s (snd (Authenticate username password s)) /\
  no_dial_step s (snd (GetGroupsOfUser username s)) /\
  no_dial_step s (snd (FindUsers username s)) /\
  no_dial_step s (snd (Close s)).
Proof.
  intros Hc. split; [rewrite (Connect_connected s Hc); apply no_dial_step_refl|].
  split; [|split; [|split; [|split]]];
    try (apply after_Connect_connected; [exact Hc|]; resp ltac:(eauto with nodial)).
  apply Close_no_dial.
Qed.

Lemma connected_methods_no_dial_witness :
  let s := snd (Connect (example_state "" "" [None] [inl {| Entries := [alice] |}])) in
  Conn (client s) = Some 1%nat /\
  dials (trace (world (snd (Authenticate "alice" "right" s)))) = 1%nat.
Proof.
  intros s. assert (Hc : Conn (client s) <> None) by discriminate.
  split; [reflexivity|].
  destruct (connected_methods_no_dial s "alice" "right" Hc) as (_ & _ & [_ [t [Ht Hd]]] & _).
  rewrite Ht, dials_app, Hd. reflexivity.
Defined.

Lemma Connect_config_kept : respects config_kept Connect.
Proof.
  intros s. destruct (Connect s) as [r s1] eqn:E. simpl.
  destruct (Connect_spec _ _ _ E) as (_ & _ & Hcl & _).
  exists (Conn (client s1)). split; [exact Hcl|].
  intros Hn. rewrite (Connect_connected s Hn) in E. injection E as _ <-. reflexivity.
Qed.

Lemma respects_config_kept_of_no_dial {A} (m : M A) :
  respects no_dial_step m -> respects config_kept m.
Proof. apply respects_weaken, no_dial_config_kept. Qed.

Create HintDb config.
#[local] Hint Resolve config_kept_refl config_kept_trans Connect_config_kept : config.
#[local] Hint Extern 1 (respects config_kept _) =>
  apply respects_config_kept_of_no_dial; solve [eauto with nodial] : config.

(** No method changes the configuration (host, port, TLS mode, bind
    credentials, filters, base, attributes, server name): the only field
    that may change is the handle [Conn], and once it is set no method,
    Close included, replaces or clears it. *)
Theorem methods_keep_config (s : St) (username password : string) :
  config_kept s (snd (Connect s)) /\
  config_kept s (snd (SearchUser username s)) /\
  config_kept s (snd (Authenticate username password s)) /\
  config_kept s (snd (GetGroupsOfUser username s)) /\
  config_kept s (snd (FindUsers username s)) /\
  config_kept s (snd (Close s)).
Proof.
  split; [apply Connect_config_kept|].
  split; [|split; [|split; [|split]]]; revert s;
    match goal with |- forall s, config_kept s (snd (?m s)) => change (respects config_kept m) end;
    unfold SearchUser, Authenticate, GetGroupsOfUser, FindUsers, Close;
    resp ltac:(eauto with config).
Qed.

Ltac run_connect :=
  unfold Connect, get_client, put_client, ldap_Dial, ldap_DialTLS, StartTLS, call, new_conn,
    pop_dial, pop_tls, fresh_conn, emit; unM; simpl.

(** Connect's two transports.  Without UseSSL it dials in plaintext and
    upgrades with StartTLS skipping certificate verification; with UseSSL
    it dials TLS directly, verifying the certificate against ServerName.
    Either way the new connection becomes [Conn]. *)
Theorem Connect_transport (s : St) (rest_d rest_t : list (option error)) :
  Conn (client s) = None ->
  dial_rsp (world s) = None :: rest_d ->
  tls_rsp (world s) = None :: rest_t ->
  let lc := client s in
  let n := next_conn (world s) in
  fst (Connect s) = None /\
  Conn (client (snd (Connect s))) = Some n /\
  trace (world (snd (Connect s))) =
    (trace (world s) ++
     if UseSSL lc then [EvDialTLS (Host lc) (Port lc) false (ServerName lc)]
     else [EvDial (Host lc) (Port lc); EvStartTLS n true])%list.
Proof.
  destruct s as [lc w]. simpl. intros Hc Hd Ht. run_connect. rewrite Hc.
  destruct (UseSSL lc); simpl; rewrite Hd; simpl; [|rewrite Ht; simpl];
    rewrite <- ?app_assoc; repeat split; reflexivity.
Qed.

Lemma Connect_transport_witness :
  let s := example_state "" "" [] [] in
  trace (world (snd (Connect s))) = [EvDial "ldap.example.com" 389; EvStartTLS 1 true].
Proof.
  intros s. destruct (Connect_transport s [] [] eq_refl eq_refl eq_refl) as (_ & _ & Ht).
  rewrite Ht. reflexivity.
Defined.

(** When the plaintext dial succeeds but the StartTLS upgrade fails,
    Connect returns the upgrade error and leaves [Conn] nil; the dialed
    connection is never closed, and the next Connect dials again. *)
Theorem Connect_starttls_failure (s : St) (e : error) (rest_d rest_t : list (option error)) :
  Conn (client s) = None ->
  UseSSL (client s) = false ->
  dial_rsp (world s) = None :: rest_d ->
  tls_rsp (world s) = Some e :: rest_t ->
  let lc := client s in
  let n := next_conn (world s) in
  Connect s = (Some e, snd (Connect s)) /\
  client (snd (Connect s)) = lc /\
  trace (world (snd (Connect s))) =
    (trace (world s) ++ [EvDial (Host lc) (Port lc); EvStartTLS n true])%list.
Proof.
  destruct s as [lc w]. simpl. intros Hc Hs Hd Ht. run_connect. rewrite Hc, Hs.
  simpl. rewrite Hd. simpl. rewrite Ht. simpl. rewrite <- app_assoc.
  repeat split; reflexivity.
Qed.

Lemma Connect_starttls_failure_witness :
  let s := {| client := example_client "" ""; world :=
              {| dial_rsp := [None]; tls_rsp := [Some timeout_err]; bind_rsp := [];
                 search_rsp := []; trace := []; next_conn := 1%nat |} |} in
  fst (Connect s) = Some timeout_err /\ Conn (client (snd (Connect s))) = None.
Proof.
  intros s. destruct (Connect_starttls_failure s timeout_err [] [] eq_refl eq_refl eq_refl eq_refl)
    as (H1 & H2 & _).
  split; [rewrite H1; reflexivity | rewrite H2; reflexivity].
Defined.

(** When Connect fails, each method returns that error at once, with a
    nil result (and false for Authenticate), and does nothing after
    Connect: no bind, no search. *)
Theorem connect_error_propagates (s s1 : St) (e : error) (username password : string) :
  Connect s = (Some e, s1) ->
  SearchUser username s = ((None, Some e), s1) /\
  Authenticate username password s = ((false, None, Some e), s1) /\
  GetGroupsOfUser username s = ((None, Some e), s1) /\
  FindUsers username s = ((None, Some e), s1).
Proof.
  intros HC. unfold SearchUser, Authenticate, GetGroupsOfUser, FindUsers; unM.
  rewrite HC. repeat split; reflexivity.
Qed.

Lemma connect_error_propagates_witness :
  let s := {| client := example_client "" ""; world :=
              {| dial_rsp := [Some timeout_err]; tls_rsp := []; bind_rsp := [];
                 search_rsp := []; trace := []; next_conn := 1%nat |} |} in
  fst (Authenticate "alice" "right" s) = (false, None, Some timeout_err).
Proof.
  intros s. assert (HC : Connect s = (Some timeout_err, snd (Connect s))) by reflexivity.
  destruct (connect_error_propagates s _ _ "alice" "right" HC) as (_ & H & _).
  rewrite H. reflexivity.
Defined.

(** GetGroupsOfUser, when its search succeeds at once, issues exactly one
    search: under Base, whole subtree, never dereferencing aliases, no
    size or time limit, filter GroupFilter with the username, attribute
    "cn" only; it returns the "cn" value of every entry in response order
    ("" for an entry without cn), without checking their number. *)
Theorem GetGroupsOfUser_result (s s1 : St) (username : string) (sr : SearchResult)
  (rest : list (SearchResult + error)) :
  Connect s = (None, s1) ->
  search_rsp (world s) = inl sr :: rest ->
  let lc := client s in
  let greq := NewSearchRequest (Base lc) ScopeWholeSubtree NeverDerefAliases 0 0 false
                (Sprintf (GroupFilter lc) username) ["cn"] in
  fst (GetGroupsOfUser username s) =
    (Some (map (fun entry => GetAttributeValue entry "cn") (Entries sr)), None) /\
  trace (world (snd (GetGroupsOfUser username s))) =
    (trace (world s1) ++ [EvSearch (deref (Conn (client s1))) greq])%list.
Proof.
  intros HC Hs lc greq. subst lc greq.
  destruct (Connect_spec _ _ _ HC) as (Hs1 & _ & Hcl & _). rewrite <- Hs1 in Hs.
  destruct s1 as [lc1 w1]; simpl in *.
  after_connect HC; cbn [client world]; rewrite Hcl.
  unfold search_with_retry, Search, call, pop_search, emit; unM. cbn. rewrite Hs. cbn.
  split; reflexivity.
Qed.

Lemma GetGroupsOfUser_result_witness :
  let s := example_state "" "" [] [inl {| Entries := [group "admins"; group "devs"] |}] in
  fst (GetGroupsOfUser "bob" s) = (Some ["admins"; "devs"], None).
Proof.
  intros s. assert (HC : Connect s = (None, snd (Connect s))) by reflexivity.
  destruct (GetGroupsOfUser_result s _ "bob" _ [] HC eq_refl) as [H _].
  rewrite H. reflexivity.
Defined.

(** The retry loop shared by SearchUser, GetGroupsOfUser and FindUsers:
    a search that succeeds at once is issued once, with no log and no
    sleep; one that fails once and then succeeds is issued twice, with the
    identical request, one log line and one 3-second sleep, and its answer
    is returned. *)
Theorem search_with_retry_schedule (l : conn) (req : SearchRequest) (s : St) (e : error)
  (sr : SearchResult) (rest : list (SearchResult + error)) :
  (search_rsp (world s) = inl sr :: rest ->
   fst (search_with_retry l req s) = inl sr /\
   trace (world (snd (search_with_retry l req s))) = (trace (world s) ++ [EvSearch l req])%list) /\
  (search_rsp (world s) = inr e :: inl sr :: rest ->
   fst (search_with_retry l req s) = inl sr /\
   trace (world (snd (search_with_retry l req s))) =
     (trace (world s) ++ [EvSearch l req; EvSearch l req; EvLog req 3; EvSleep 3])%list).
Proof.
  destruct s as [lc w]. unfold search_with_retry. unM. simpl.
  split; intros Hs;
    unfold Search, call, pop_search, emit, LogRetry, Sleep, log_event, with_world;
    simpl; rewrite Hs; simpl; rewrite <- ?app_assoc; split; reflexivity.
Qed.

(** Authenticate's search is not retried: when it fails, Authenticate
    returns false, no map and the search error after exactly one search,
    with no log line and no sleep. *)
Theorem Authenticate_search_no_retry (s s1 : St) (username password : string) (e : error)
  (rest_b : list (option error)) (rest_s : list (SearchResult + error)) :
  Connect s = (None, s1) ->
  let lc := client s in
  bind_rsp (world s) = ((if has_bind_creds lc then [None] else []) ++ rest_b)%list ->
  search_rsp (world s) = inr e :: rest_s ->
  let l := deref (Conn (client s1)) in
  let req := NewSearchRequest (Base lc) ScopeWholeSubtree NeverDerefAliases 0 0 false
               (Sprintf (UserFilter lc) username) (Attributes lc ++ ["dn"])%list in
  fst (Authenticate username password s) = (false, None, Some e) /\
  trace (world (snd (Authenticate username password s))) =
    (trace (world s1) ++
     (if has_bind_creds lc then [EvBind l (BindDN lc) (BindPassword lc)] else []) ++
     [EvSearch l req])%list.
Proof.
  intros HC lc Hb Hs l req. subst lc l req.
  destruct (Connect_spec _ _ _ HC) as (Hs1 & Hb1 & Hcl & _).
  rewrite <- Hb1 in Hb. rewrite <- Hs1 in Hs. destruct s1 as [lc1 w1]; simpl in *.
  run_auth HC Hcl Hb Hs; rewrite <- ?app_assoc; split; reflexivity.
Qed.

Lemma Authenticate_search_no_retry_witness :
  let s := example_state "" "" [] [inr timeout_err; inl {| Entries := [alice] |}] in
  fst (Authenticate "alice" "right" s) = (false, None, Some timeout_err) /\
  sleeps (trace (world (snd (Authenticate "alice" "right" s)))) = [].
Proof.
  intros s. assert (HC : Connect s = (None, snd (Connect s))) by reflexivity.
  destruct (Authenticate_search_no_retry s _ "alice" "right" timeout_err [] _ HC eq_refl eq_refl)
    as [H1 H2].
  rewrite H1, H2. split; reflexivity.
Defined.

(** When privileged credentials are configured and the first privileged
    bind fails, Authenticate returns false, no map and the bind error, and
    issues no search. *)
Theorem Authenticate_privileged_bind_fails (s s1 : St) (username password : string)
  (e : error) (rest_b : list (option error)) :
  Connect s = (None, s1) ->
  has_bind_creds (client s) = true ->
  bind_rsp (world s) = Some e :: rest_b ->
  let lc := client s in
  fst (Authenticate username password s) = (false, None, Some e) /\
  trace (world (snd (Authenticate username password s))) =
    (trace (world s1) ++ [EvBind (deref (Conn (client s1))) (BindDN lc) (BindPassword lc)])%list.
Proof.
  intros HC Hhb Hb lc. subst lc.
  destruct (Connect_spec _ _ _ HC) as (_ & Hb1 & Hcl & _).
  rewrite <- Hb1 in Hb. destruct s1 as [lc1 w1]; simpl in *.
  after_connect HC; cbn [client world]; rewrite Hcl, has_bind_creds_set_Conn, Hhb.
  unfold Bind, call, pop_bind, emit. cbn. rewrite Hb. cbn. split; reflexivity.
Qed.

Lemma Authenticate_privileged_bind_fails_witness :
  let s := example_state "cn=reader,dc=example,dc=com" "secret" [Some invalid_credentials]
             [inl {| Entries := [alice] |}] in
  fst (Authenticate "alice" "right" s) = (false, None, Some invalid_credentials) /\
  searches (trace (world (snd (Authenticate "alice" "right" s)))) = [].
Proof.
  intros s. assert (HC : Connect s = (None, snd (Connect s))) by reflexivity.
  destruct (Authenticate_privileged_bind_fails s _ "alice" "right" invalid_credentials []
              HC eq_refl eq_refl) as [H1 H2].
  rewrite H1, H2. split; reflexivity.
Defined.

(** When the search finds two or more entries, Authenticate returns
    false, no map and "Too many entries returned" without binding as any
    of them: the only bind is the optional privileged one. *)
Theorem Authenticate_ambiguous_no_user_bind (s s1 : St) (username password : string)
  (e1 e2 : Entry) (es : list Entry) (rest_b : list (option error))
  (rest_s : list (SearchResult + error)) :
  Connect s = (None, s1) ->
  let lc := client s in
  bind_rsp (world s) = ((if has_bind_creds lc then [None] else []) ++ rest_b)%list ->
  search_rsp (world s) = inl {| Entries := e1 :: e2 :: es |} :: rest_s ->
  fst (Authenticate username password s) = (false, None, Some errTooMany) /\
  binds (trace (world (snd (Authenticate username password s)))) =
    (binds (trace (world s1)) ++
     if has_bind_creds lc then [(BindDN lc, BindPassword lc)] else [])%list.
Proof.
  intros HC lc Hb Hs. subst lc.
  destruct (Connect_spec _ _ _ HC) as (Hs1 & Hb1 & Hcl & _).
  rewrite <- Hb1 in Hb. rewrite <- Hs1 in Hs. destruct s1 as [lc1 w1]; simpl in *.
  run_auth HC Hcl Hb Hs; rewrite !binds_app; simpl; rewrite ?app_nil_r; split; reflexivity.
Qed.

Lemma Authenticate_ambiguous_no_user_bind_witness :
  let s := example_state "" "" [None] [inl {| Entries := [alice; alice2] |}] in
  fst (Authenticate "alice" "right" s) = (false, None, Some errTooMany) /\
  binds (trace (world (snd (Authenticate "alice" "right" s)))) = [].
Proof.
  intros s. assert (HC : Connect s = (None, snd (Connect s))) by reflexivity.
  destruct (Authenticate_ambiguous_no_user_bind s _ "alice" "right" alice alice2 [] [None] []
              HC eq_refl eq_refl) as [H1 H2].
  rewrite H1, H2. split; reflexivity.
Defined.

(** Authenticate does not itself reject an empty password: it binds as
    the found DN with "" and, when the server accepts that bind (an
    unauthenticated bind), reports the user as authenticated. *)
Theorem Authenticate_empty_password (s s1 : St) (username : string) (e : Entry)
  (rest_b : list (option error)) (rest_s : list (SearchResult + error)) :
  Connect s = (None, s1) ->
  let lc := client s in
  let priv := if has_bind_creds lc then [None] else [] in
  bind_rsp (world s) = (priv ++ None :: priv ++ rest_b)%list ->
  search_rsp (world s) = inl {| Entries := [e] |} :: rest_s ->
  fst (Authenticate username "" s) = (true, Some (user_of (Attributes lc) e), None) /\
  In (DN e, "") (binds (trace (world (snd (Authenticate username "" s))))).
Proof.
  intros HC lc priv Hb Hs.
  destruct (Authenticate_success_trace s s1 username "" e rest_b rest_s HC Hb Hs) as [Hr Ht].
  split; [exact Hr|]. rewrite Ht, !binds_app. apply in_or_app. right.
  apply in_or_app. right. simpl. auto.
Qed.

Lemma Authenticate_empty_password_witness :
  let s := example_state "" "" [None] [inl {| Entries := [alice] |}] in
  fst (Authenticate "alice" "" s) = (true, Some (user_of ["cn"; "mail"] alice), None).
Proof.
  intros s. assert (HC : Connect s = (None, snd (Connect s))) by reflexivity.
  destruct (Authenticate_empty_password s _ "alice" alice [] [] HC eq_refl eq_refl) as [H _].
  exact H.
Defined.

Lemma sprintf_aux_other (c : ascii) (rest : list ascii) (arg : string) (used : bool) :
  c <> "%"%char -> sprintf_aux (c :: rest) arg used = String c (sprintf_aux rest arg used).
Proof.
  intros Hc. destruct c as [[] [] [] [] [] [] [] []]; try reflexivity. contradiction.
Qed.

Lemma sprintf_aux_plain (l : list ascii) (arg : string) (used : bool) :
  ~ In "%"%char l -> sprintf_aux l arg used = string_of_list_ascii l.
Proof.
  induction l as [|c l IH]; intros Hn; [reflexivity|].
  rewrite sprintf_aux_other by (intros ->; apply Hn; left; reflexivity).
  simpl. rewrite IH by (intros H; apply Hn; right; exact H). reflexivity.
Qed.

Lemma list_ascii_of_string_app (a b : string) :
  list_ascii_of_string (a ++ b) = (list_ascii_of_string a ++ list_ascii_of_string b)%list.
Proof. induction a as [|c a IH]; simpl; [reflexivity | rewrite IH; reflexivity]. Qed.

Lemma sprintf_aux_split (l1 l2 : list ascii) (arg : string) :
  ~ In "%"%char l1 -> ~ In "%"%char l2 ->
  sprintf_aux (l1 ++ "%"%char :: "s"%char :: l2) arg false =
    string_of_list_ascii l1 ++ arg ++ string_of_list_ascii l2.
Proof.
  intros H1 H2. induction l1 as [|c l1 IH].
  - simpl. rewrite sprintf_aux_plain by exact H2. reflexivity.
  - cbn [app]. rewrite sprintf_aux_other by (intros ->; apply H1; left; reflexivity).
    rewrite IH by (intros H; apply H1; right; exact H). reflexivity.
Qed.

(** [fmt.Sprintf] on a template [pre ++ "%s" ++ post] whose other parts
    hold no '%': the argument is inserted as it is. *)
Lemma Sprintf_verbatim (pre post arg : string) :
  ~ In "%"%char (list_ascii_of_string pre) -> ~ In "%"%char (list_ascii_of_string post) ->
  Sprintf (pre ++ "%s" ++ post) arg = pre ++ arg ++ post.
Proof.
  intros Hpre Hpost. unfold Sprintf. rewrite !list_ascii_of_string_app.
  cbn [list_ascii_of_string app].
  rewrite sprintf_aux_split by assumption.
  rewrite !string_of_list_ascii_of_string. reflexivity.
Qed.

(** The username reaches the directory unescaped: with a user filter
    [pre ++ "%s" ++ post] (no other '%'), the one search SearchUser issues
    when it succeeds at once has filter [pre ++ username ++ post], so
    filter metacharacters such as '*' or ')' in the username are sent as
    they are. *)
Theorem SearchUser_filter_verbatim (s s1 : St) (username pre post : string) (sr : SearchResult)
  (rest : list (SearchResult + error)) :
  Connect s = (None, s1) ->
  UserFilter (client s) = pre ++ "%s" ++ post ->
  ~ In "%"%char (list_ascii_of_string pre) -> ~ In "%"%char (list_ascii_of_string post) ->
  search_rsp (world s) = inl sr :: rest ->
  let lc := client s in
  trace (world (snd (SearchUser username s))) =
    (trace (world s1) ++
     [EvSearch (deref (Conn (client s1)))
        (NewSearchRequest (Base lc) ScopeWholeSubtree NeverDerefAliases 0 0 false
           (pre ++ username ++ post) (Attributes lc))])%list.
Proof.
  intros HC Hf Hpre Hpost Hs lc. subst lc.
  rewrite <- (Sprintf_verbatim pre post username Hpre Hpost), <- Hf.
  destruct (Connect_spec _ _ _ HC) as (Hs1 & _ & Hcl & _). rewrite <- Hs1 in Hs.
  destruct s1 as [lc1 w1]; simpl in *.
  after_connect HC; cbn [client world]; rewrite Hcl.
  unfold search_with_retry, Search, call, pop_search, emit; unM.
  change (Z.to_nat (4 - 3)) with 1%nat. cbn. rewrite Hs. cbn.
  destruct (Entries sr) as [|? [|? ?]]; reflexivity.
Qed.

Lemma SearchUser_filter_verbatim_witness :
  let s := example_state "" "" [] [inl {| Entries := [] |}] in
  trace (world (snd (SearchUser "*" s))) =
    [EvDial "ldap.example.com" 389; EvStartTLS 1 true;
     EvSearch 1 (NewSearchRequest "dc=example,dc=com" ScopeWholeSubtree NeverDerefAliases 0 0 false
                   "(uid=*)" ["cn"; "mail"])].
Proof.
  intros s. assert (HC : Connect s = (None, snd (Connect s))) by reflexivity.
  assert (Hpre : ~ In "%"%char (list_ascii_of_string "(uid=")) by (simpl; intuition discriminate).
  assert (Hpost : ~ In "%"%char (list_ascii_of_string ")")) by (simpl; intuition discriminate).
  rewrite (SearchUser_filter_verbatim s _ "*" "(uid=" ")" _ [] HC eq_refl Hpre Hpost eq_refl).
  reflexivity.
Defined.

(** SearchUser and FindUsers agree on a unique match: whenever SearchUser
    returns a map [m] without error, FindUsers on the same state returns
    the one-element list [[m]]. *)
Theorem SearchUser_FindUsers_agree (s : St) (username : string) (m : gmap string string) :
  fst (SearchUser username s) = (Some m, None) ->
  fst (FindUsers username s) = (Some [m], None).
Proof.
  unfold SearchUser, FindUsers; unM.
  destruct (Connect s) as [[e|] s1]; [discriminate|]. cbv beta iota.
  unfold get_client; cbv beta iota.
  destruct (search_with_retry _ _ s1) as [[sr|e] s2]; [|discriminate]. simpl.
  destruct (Entries sr) as [|e0 [|e1 es]]; simpl; try discriminate.
  intros [= ->]. reflexivity.
Qed.

Lemma SearchUser_FindUsers_agree_witness :
  let s := example_state "" "" [] [inl {| Entries := [alice] |}; inl {| Entries := [alice] |}] in
  fst (SearchUser "alice" s) = (Some (user_of ["cn"; "mail"] alice), None) /\
  fst (FindUsers "alice" s) = (Some [user_of ["cn"; "mail"] alice], None).
Proof.
  intros s. assert (H : fst (SearchUser "alice" s) = (Some (user_of ["cn"; "mail"] alice), None))
    by reflexivity.
  split; [exact H | exact (SearchUser_FindUsers_agree s "alice" _ H)].
Defined.
